(** * pyfreesurfer/info.py: the package metadata module

    The module is a straight-line sequence of top-level assignments.  It is
    embedded as a small Python fragment: values, the expression forms that the
    module uses (literals, list and dict displays, names, one [str.format]
    call), assignment statements, and an evaluator over the module's globals
    dictionary that threads Python exceptions through an error monad. *)

From Stdlib Require Import ZArith Ascii String List Bool.
From Stdlib Require Import DecimalString DecimalZ.
From stdpp Require Import base option gmap strings list fin_maps.

Local Open Scope Z_scope.
Local Open Scope string_scope.

#[local] Set Warnings "-register-all".

(** ** Values *)

(** The Python values that occur in the module: [int], [bool], [str], [list]
    and [dict] objects. *)
Inductive value : Type :=
| VInt (z : Z)
| VBool (b : bool)
| VStr (s : string)
| VList (items : list value)
| VDict (entries : list (value * value)).

(** ** Exceptions and the error monad *)

Inductive exn : Type :=
| NameError (name : string)
| AttributeError
| IndexError
| ValueError (msg : string).

(** [Unmodelled] marks Python behaviour that exists but lies outside the
    fragment embedded here (keyword fields, conversions, format specs). *)
Inductive result (A : Type) : Type :=
| Ok (a : A)
| Raise (e : exn)
| Unmodelled.

Arguments Ok {A} a.
Arguments Raise {A} e.
Arguments Unmodelled {A}.

Definition bind {A B : Type} (r : result A) (k : A -> result B) : result B :=
  match r with
  | Ok a => k a
  | Raise e => Raise e
  | Unmodelled => Unmodelled
  end.

Notation "'do' x <- r ; k" := (bind r (fun x => k))
  (at level 10, x name, r at level 100, k at level 200).

Section MapM.
Context {A B : Type} (f : A -> result B).

(** Left-to-right evaluation of a sequence, stopping at the first error. *)
Fixpoint mapM (l : list A) : result (list B) :=
  match l with
  | [] => Ok []
  | a :: l' => do b <- f a; do bs <- mapM l'; Ok (b :: bs)
  end.
End MapM.

(** ** Strings *)

Definition is_digit (c : ascii) : bool :=
  ((48 <=? nat_of_ascii c) && (nat_of_ascii c <=? 57))%nat.

Fixpoint all_chars (p : ascii -> bool) (s : string) : bool :=
  match s with
  | EmptyString => true
  | String c s' => p c && all_chars p s'
  end.

(** A non-empty run of decimal digits. *)
Definition is_digits (s : string) : bool :=
  match s with
  | EmptyString => false
  | _ => all_chars is_digit s
  end.

(** [str(n)] for an [int]: the decimal rendering, with a leading minus sign
    for negative numbers. *)
Definition str_of_int (z : Z) : string :=
  NilZero.string_of_int (Z.to_int z).

(** The rendering [str.format] applies to an argument that fills a field
    without conversion or format spec (the built-in [format] with an empty spec). *)
Definition format_value (v : value) : result string :=
  match v with
  | VInt z => Ok (str_of_int z)
  | VBool true => Ok "True"
  | VBool false => Ok "False"
  | VStr s => Ok s
  | VList _ | VDict _ => Unmodelled
  end.

(** ** [str.format] *)

(** How the fields seen so far were numbered: not at all yet, automatically
    ([{}], next index kept), or manually ([{0}]). *)
Inductive numbering : Type :=
| NoFields
| Automatic (next : nat)
| Manual.

(** The scanner's position inside the format string. *)
Inductive scan : Type :=
| InText
| AfterOpen
| InField (name : string)
| AfterClose.

Definition nat_of_digits (s : string) : nat :=
  match NilEmpty.uint_of_string s with
  | Some d => Nat.of_uint d
  | None => 0%nat
  end.

(** Resolve a completed replacement field [{name}] to an argument index. *)
Definition field_index (name : string) (nb : numbering) : result (nat * numbering) :=
  match name with
  | EmptyString =>
      match nb with
      | NoFields => Ok (0%nat, Automatic 1)
      | Automatic n => Ok (n, Automatic (S n))
      | Manual =>
          Raise (ValueError
            "cannot switch from manual field specification to automatic field numbering")
      end
  | _ =>
      if is_digits name then
        match nb with
        | Automatic _ =>
            Raise (ValueError
              "cannot switch from automatic field numbering to manual field specification")
        | _ => Ok (nat_of_digits name, Manual)
        end
      else Unmodelled
  end.

Definition fill_field (name : string) (nb : numbering) (args : list value)
  : result (string * numbering) :=
  do ix <- field_index name nb;
  match args !! (fst ix) with
  | Some v => do s <- format_value v; Ok (s, snd ix)
  | None => Raise IndexError
  end.

Fixpoint format_scan (fmt : string) (st : scan) (nb : numbering) (args : list value)
  : result string :=
  match fmt with
  | EmptyString =>
      match st with
      | InText => Ok ""
      | AfterOpen => Raise (ValueError "Single '{' encountered in format string")
      | InField _ => Raise (ValueError "expected '}' before end of string")
      | AfterClose => Raise (ValueError "Single '}' encountered in format string")
      end
  | String c rest =>
      match st with
      | InText =>
          if Ascii.eqb c "{" then format_scan rest AfterOpen nb args
          else if Ascii.eqb c "}" then format_scan rest AfterClose nb args
          else do out <- format_scan rest InText nb args; Ok (String c out)
      | AfterOpen =>
          if Ascii.eqb c "{" then
            do out <- format_scan rest InText nb args; Ok (String "{" out)
          else if Ascii.eqb c "}" then
            do f <- fill_field "" nb args;
            do out <- format_scan rest InText (snd f) args;
            Ok (fst f +:+ out)
          else format_scan rest (InField (String c "")) nb args
      | InField name =>
          if Ascii.eqb c "}" then
            do f <- fill_field name nb args;
            do out <- format_scan rest InText (snd f) args;
            Ok (fst f +:+ out)
          else if Ascii.eqb c "{" then Unmodelled
          else format_scan rest (InField (name +:+ String c "")) nb args
      | AfterClose =>
          if Ascii.eqb c "}" then
            do out <- format_scan rest InText nb args; Ok (String "}" out)
          else Raise (ValueError "Single '}' encountered in format string")
      end
  end.

(** The method call [fmt.format(a0, a1, ...)] with positional arguments only. *)
Definition str_format (fmt : string) (args : list value) : result string :=
  format_scan fmt InText NoFields args.

(** ** Expressions and statements *)

(** The expression forms of the module: literals, a list display, the empty
    dict display, a name, and a [format] method call with positional
    arguments. *)
Inductive expr : Type :=
| EInt (z : Z)
| EBool (b : bool)
| EStr (s : string)
| EList (items : list expr)
| EEmptyDict
| EName (name : string)
| EFormat (receiver : expr) (args : list expr).

Inductive stmt : Type :=
| Assign (target : string) (e : expr).

(** Evaluation in the module's globals.  A method call evaluates the
    receiver, looks the attribute up (only [str] objects have [format] among
    the values here), then evaluates the arguments left to right. *)
Fixpoint eval (g : gmap string value) (e : expr) : result value :=
  match e with
  | EInt z => Ok (VInt z)
  | EBool b => Ok (VBool b)
  | EStr s => Ok (VStr s)
  | EList items => do vs <- mapM (eval g) items; Ok (VList vs)
  | EEmptyDict => Ok (VDict [])
  | EName x =>
      match g !! x with
      | Some v => Ok v
      | None => Raise (NameError x)
      end
  | EFormat receiver args =>
      do r <- eval g receiver;
      match r with
      | VStr fmt =>
          do vs <- mapM (eval g) args;
          do s <- str_format fmt vs;
          Ok (VStr s)
      | _ => Raise AttributeError
      end
  end.

Definition exec_stmt (g : gmap string value) (st : stmt) : result (gmap string value) :=
  match st with
  | Assign x e => do v <- eval g e; Ok (<[x:=v]> g)
  end.

(** Statements run in order; the first exception aborts the module. *)
Fixpoint exec (prog : list stmt) (g : gmap string value) : result (gmap string value) :=
  match prog with
  | [] => Ok g
  | st :: prog' => do g' <- exec_stmt g st; exec prog' g'
  end.

Definition target (st : stmt) : string :=
  match st with
  | Assign x _ => x
  end.

(** The names a program binds, in order of assignment. *)
Definition assigned (prog : list stmt) : list string := map target prog.

(** ** The module [pyfreesurfer.info] *)

Definition classifiers_display : expr :=
  EList [EStr "Development Status :: 5 - Production/Stable";
         EStr "Environment :: Console";
         EStr "Environment :: X11 Applications :: Qt";
         EStr "Operating System :: OS Independent";
         EStr "Programming Language :: Python";
         EStr "Topic :: Scientific/Engineering";
         EStr "Topic :: Utilities"].

Definition description_text : string :=
  "
[pyFreeSurfer]
This package provides common scripts:

* pyfreesurfer_reconall: FreeSurfer cortical and subcortical segmentation.
* pyfreesurfer_datacheck: check FreeSurfer 'reconall' produced data integrity.
* pyfreesurfer_conversion:  convert FreeSurfer volume, mesh , annotations
  to the native space. The produced meshes will also be aligned across
  subjects.
* pyfreesurfer_qualitycheck: check FreeSurfer 'reconall' produced data quality.
* pyfreesurfer_stats: summarize the FreeSurfer 'reconall' individual
  statistics.
* pyfreesurfer_textures: build texture arrays aligned across subjects.
".

Definition long_description_text : string :=
  "
======================
pyFreeSurfer
======================

Python wrappers for FreeSurfer: wrap the FreeSurfer software and simplify
scripting calls. Such calls can be performed through the use of a
dedicated function of the package.
".

Definition info : list stmt :=
  [ Assign "version_major" (EInt 1);
    Assign "version_minor" (EInt 1);
    Assign "version_micro" (EInt 0);
    Assign "__version__"
      (EFormat (EStr "{0}.{1}.{2}")
         [EName "version_major"; EName "version_minor"; EName "version_micro"]);
    Assign "DEFAULT_FREESURFER_PATH" (EStr "/i2bm/local/freesurfer/SetUpFreeSurfer.sh");
    Assign "DEFAULT_FSL_PATH" (EStr "/etc/fsl/5.0/fsl.sh");
    Assign "DEFAULT_WORKBENCH_PATH" (EStr "/usr/bin");
    Assign "DEFAULT_TEMPLATE_SYM_PATH"
      (EStr "/i2bm/local/freesurfer/subjects/fsaverage_sym");
    Assign "FREESURFER_RELEASE" (EStr "5.3.0");
    Assign "CLASSIFIERS" classifiers_display;
    Assign "description" (EStr description_text);
    Assign "long_description" (EStr long_description_text);
    Assign "NAME" (EStr "pyFreeSurfer");
    Assign "ORGANISATION" (EStr "CEA");
    Assign "MAINTAINER" (EStr "Antoine Grigis");
    Assign "MAINTAINER_EMAIL" (EStr "antoine.grigis@cea.fr");
    Assign "DESCRIPTION" (EName "description");
    Assign "LONG_DESCRIPTION" (EName "long_description");
    Assign "URL" (EStr "https://github.com/neurospin/pyfreesurfer");
    Assign "DOWNLOAD_URL" (EStr "https://github.com/neurospin/pyfreesurfer");
    Assign "LICENSE" (EStr "CeCILL-B");
    Assign "CLASSIFIERS" (EName "CLASSIFIERS");
    Assign "AUTHOR" (EStr "pyFreeSurfer developers");
    Assign "AUTHOR_EMAIL" (EStr "antoine.grigis@cea.fr");
    Assign "PLATFORMS" (EStr "OS Independent");
    Assign "ISRELEASE" (EBool true);
    Assign "VERSION" (EName "__version__");
    Assign "PROVIDES" (EList [EStr "pyfreesurfer"]);
    Assign "REQUIRES"
      (EList [EStr "numpy>=1.6.1"; EStr "nibabel>=1.1.0"; EStr "matplotlib>=1.3.1"]);
    Assign "EXTRA_REQUIRES" EEmptyDict ].

(** The globals the module leaves behind when it starts from an empty
    dictionary. *)
Definition info_globals : result (gmap string value) := exec info ∅.

Definition lookup_global (x : string) (r : result (gmap string value)) : result value :=
  do g <- r;
  match g !! x with
  | Some v => Ok v
  | None => Raise (NameError x)
  end.

(** The bindings of that dictionary ([∅] only if the run failed). *)
Definition info_bindings : gmap string value :=
  match info_globals with
  | Ok g => g
  | _ => ∅
  end.

(** The module binds [x] to [v], whatever globals it is started with. *)
Definition defines (x : string) (v : value) : Prop :=
  ∀ g0 : gmap string value, ∃ g, exec info g0 = Ok g ∧ g !! x = Some v.

(** ** Reading the constants back

    The operations the properties below apply to the module's strings:
    Python's [str.split] with a one-character separator, [str.join],
    [str.strip], [int] on a string in base ten, and the shape of a version
    and of a requirement specifier. *)

(** [s.split(sep)]: every occurrence of [sep] ends a part, so a string with
    [n] separators has [n + 1] parts. *)
Fixpoint split_on (sep : ascii) (s : string) : list string :=
  match s with
  | EmptyString => [""]
  | String c s' =>
      if Ascii.eqb c sep then "" :: split_on sep s'
      else match split_on sep s' with
           | [] => [String c ""]
           | part :: parts => String c part :: parts
           end
  end.

(** [sep.join(parts)]. *)
Fixpoint join (sep : string) (parts : list string) : string :=
  match parts with
  | [] => ""
  | part :: parts' =>
      match parts' with
      | [] => part
      | _ => part +:+ sep +:+ join sep parts'
      end
  end.

Definition is_space (c : ascii) : bool :=
  let n := nat_of_ascii c in
  ((n =? 32) || ((9 <=? n) && (n <=? 13)))%nat.

Fixpoint lstrip (s : string) : string :=
  match s with
  | EmptyString => ""
  | String c s' => if is_space c then lstrip s' else s
  end.

Fixpoint rstrip (s : string) : string :=
  match s with
  | EmptyString => ""
  | String c s' =>
      match rstrip s' with
      | EmptyString => if is_space c then "" else String c ""
      | r => String c r
      end
  end.

Definition strip (s : string) : string := rstrip (lstrip s).

(** The number a run of digits denotes. *)
Definition Z_of_digits (s : string) : Z :=
  match NilEmpty.uint_of_string s with
  | Some d => Z.of_uint d
  | None => 0
  end.

Definition invalid_literal (s : string) : result Z :=
  if all_chars (fun c => negb (Ascii.eqb c "_")) s
  then Raise (ValueError "invalid literal for int() with base 10")
  else Unmodelled.

(** [int(s)]: surrounding whitespace is ignored, one sign is allowed, the
    rest must be a non-empty run of digits.  Digit grouping with underscores,
    which only later Python versions accept, is left unmodelled. *)
Definition int_of_str (s : string) : result Z :=
  match strip s with
  | EmptyString => invalid_literal s
  | String c t =>
      if Ascii.eqb c "-" then
        if is_digits t then Ok (- Z_of_digits t) else invalid_literal s
      else if Ascii.eqb c "+" then
        if is_digits t then Ok (Z_of_digits t) else invalid_literal s
      else
        if is_digits (String c t) then Ok (Z_of_digits (String c t))
        else invalid_literal s
  end.

(** The pattern [X.Y.Z]: exactly three non-empty runs of digits, separated
    by dots. *)
Definition is_XYZ (s : string) : bool :=
  match split_on "." s with
  | [x; y; z] => is_digits x && is_digits y && is_digits z
  | _ => false
  end.

Definition XYZ_form (s : string) : Prop :=
  ∃ x y z : string,
    is_digits x = true ∧ is_digits y = true ∧ is_digits z = true ∧
    s = x +:+ "." +:+ y +:+ "." +:+ z.

(** A version of dot-separated integers, read as the list of its numbers. *)
Definition parse_version (s : string) : option (list Z) :=
  let parts := split_on "." s in
  if forallb is_digits parts then Some (map Z_of_digits parts) else None.

Definition render_version (v : list Z) : string :=
  join "." (map str_of_int v).

(** The comparison operators of a requirement specifier. *)
Inductive comparison_op : Type :=
| OpGe | OpLe | OpEq | OpNe | OpGt | OpLt | OpCompatible.

Definition op_text (op : comparison_op) : string :=
  match op with
  | OpGe => ">="
  | OpLe => "<="
  | OpEq => "=="
  | OpNe => "!="
  | OpGt => ">"
  | OpLt => "<"
  | OpCompatible => "~="
  end.

Definition parse_op (s : string) : option comparison_op :=
  find (fun op => String.eqb (op_text op) s)
       [OpGe; OpLe; OpEq; OpNe; OpGt; OpLt; OpCompatible].

Definition is_letter (c : ascii) : bool :=
  let n := nat_of_ascii c in
  (((65 <=? n) && (n <=? 90)) || ((97 <=? n) && (n <=? 122)))%nat.

Definition is_name_char (c : ascii) : bool :=
  is_letter c || is_digit c || Ascii.eqb c "_" || Ascii.eqb c "-" || Ascii.eqb c ".".

Definition is_op_char (c : ascii) : bool :=
  Ascii.eqb c "<" || Ascii.eqb c ">" || Ascii.eqb c "=" || Ascii.eqb c "!"
  || Ascii.eqb c "~".

(** The longest prefix of [s] whose characters satisfy [p], and the rest. *)
Fixpoint span (p : ascii -> bool) (s : string) : string * string :=
  match s with
  | EmptyString => ("", "")
  | String c s' =>
      if p c then let r := span p s' in (String c (fst r), snd r)
      else ("", s)
  end.

(** A requirement [name op version]: a non-empty library name, a comparison
    operator, a version of dot-separated integers. *)
Definition parse_requirement (s : string) : option (string * comparison_op * list Z) :=
  let nr := span is_name_char s in
  let ov := span is_op_char (snd nr) in
  match fst nr with
  | EmptyString => None
  | name =>
      match parse_op (fst ov), parse_version (snd ov) with
      | Some op, Some v => Some (name, op, v)
      | _, _ => None
      end
  end.

(** The module's path constants: the names it binds that end in [_PATH]. *)
Definition is_path_name (x : string) : bool :=
  String.eqb (substring (String.length x - 5) 5 x) "_PATH".

Definition path_constants : list string :=
  filter (fun x => Is_true (is_path_name x)) (assigned info).

(** A flat scalar is a number or a string; [True] and [False] count as
    numbers, [bool] being a subclass of [int]. *)
Definition is_scalar (v : value) : bool :=
  match v with
  | VInt _ | VBool _ | VStr _ => true
  | VList _ | VDict _ => false
  end.

Definition is_flat (v : value) : bool :=
  match v with
  | VList items => forallb is_scalar items
  | _ => is_scalar v
  end.

(** The shape a constant has in the module: [EXTRA_REQUIRES] is the empty
    dict, every other constant is flat. *)
Definition has_shape (x : string) (v : value) : Prop :=
  if String.eqb x "EXTRA_REQUIRES" then v = VDict [] else is_flat v = true.

(** The globals after the first [n] statements of the module, run from an
    empty dictionary ([∅] only if that prefix failed). *)
Definition prefix_bindings (n : nat) : gmap string value :=
  match exec (take n info) ∅ with
  | Ok g => g
  | _ => ∅
  end.

(** The name under which the interpreter keeps the built-in namespace in a
    globals dictionary.  When code is executed in a dictionary that lacks this
    key the interpreter inserts it before the first statement runs; [exec]
    above is the run of the module's own statements, so that insertion is
    accounted for in the statements about the globals as a whole, which take
    the key to be bound already or leave it aside. *)
Definition builtins_key : string := "__builtins__".

(** Globals as a caller of the module's code may supply them: the built-in
    namespace is bound (to an empty dict, the module reads no built-in name)
    and so is the module's name. *)
Definition supplied_globals : gmap string value :=
  <[builtins_key := VDict []]> {["__name__" := VStr "pyfreesurfer.info"]}.

(** The default limit of the interpreter on conversions between [int] and
    [str]: a conversion of more than 4300 digits raises [ValueError].
    [str_of_int] and [int_of_str] are the conversions without that limit,
    and the statements about arbitrary integers are made within it. *)
Definition int_max_str_digits : Z := 4300.

Definition within_str_limit (z : Z) : Prop :=
  Z.abs z < 10 ^ int_max_str_digits.

(** The arguments that fill a field without error: an integer within the
    conversion limit, a boolean, a string. *)
Definition renders (v : value) : bool :=
  match v with
  | VInt z => Z.ltb (Z.abs z) (10 ^ int_max_str_digits)
  | VBool _ | VStr _ => true
  | VList _ | VDict _ => false
  end.

(** ** Induction over expressions, through the nested lists *)

Section ExprInd.
Variable P : expr -> Prop.
Hypothesis HInt : ∀ z, P (EInt z).
Hypothesis HBool : ∀ b, P (EBool b).
Hypothesis HStr : ∀ s, P (EStr s).
Hypothesis HList : ∀ items, Forall P items -> P (EList items).
Hypothesis HDict : P EEmptyDict.
Hypothesis HName : ∀ x, P (EName x).
Hypothesis HFormat : ∀ r args, P r -> Forall P args -> P (EFormat r args).

Fixpoint expr_nested_ind (e : expr) : P e :=
  let all := fix all (l : list expr) : Forall P l :=
    match l with
    | [] => List.Forall_nil P
    | e' :: l' => List.Forall_cons P e' l' (expr_nested_ind e') (all l')
    end in
  match e with
  | EInt z => HInt z
  | EBool b => HBool b
  | EStr s => HStr s
  | EList items => HList items (all items)
  | EEmptyDict => HDict
  | EName x => HName x
  | EFormat r args => HFormat r args (expr_nested_ind r) (all args)
  end.
End ExprInd.

(** * Properties *)

(** ** Evaluation does not depend on unrelated globals *)

Lemma mapM_ext_Forall {A B : Type} (f f' : A -> result B) (l : list A) (bs : list B) :
  Forall (fun a => ∀ b, f a = Ok b -> f' a = Ok b) l ->
  mapM f l = Ok bs -> mapM f' l = Ok bs.
Proof.
  intros Hall. revert bs.
  induction Hall as [|a l Ha _ IH]; intros bs; simpl; [done|].
  destruct (f a) as [b| |] eqn:Hfa; simpl; try discriminate.
  rewrite (Ha b eq_refl). simpl.
  destruct (mapM f l) as [bs'| |] eqn:Hl; simpl; try discriminate.
  intros Hbs. by rewrite (IH bs' eq_refl).
Qed.

(** A successful evaluation is preserved by any extension of the globals. *)
Lemma eval_weaken (g g' : gmap string value) (e : expr) (v : value) :
  g ⊆ g' -> eval g e = Ok v -> eval g' e = Ok v.
Proof.
  intros Hsub. revert v.
  induction e as [z|b|s|items IH| |x|r args IHr IHargs] using expr_nested_ind;
    intros v; simpl; try done.
  - destruct (mapM (eval g) items) as [vs| |] eqn:Hvs; simpl; try discriminate.
    intros Hv. by rewrite (mapM_ext_Forall _ (eval g') _ _ IH Hvs).
  - destruct (g !! x) as [w|] eqn:Hx; [|discriminate].
    intros Hv. by rewrite (lookup_weaken _ _ _ _ Hx Hsub).
  - destruct (eval g r) as [rv| |] eqn:Hr; simpl; try discriminate.
    rewrite (IHr rv eq_refl). simpl.
    destruct rv as [?|?|fmt|?|?]; try done.
    destruct (mapM (eval g) args) as [vs| |] eqn:Hvs; simpl; try discriminate.
    intros Hv. by rewrite (mapM_ext_Forall _ (eval g') _ _ IHargs Hvs).
Qed.

(** Frame property: globals present before the run are carried along and
    shadowed by the module's own bindings. *)
Lemma exec_frame (prog : list stmt) (g g' g0 : gmap string value) :
  exec prog g = Ok g' -> exec prog (g ∪ g0) = Ok (g' ∪ g0).
Proof.
  revert g. induction prog as [|[x e] prog IH]; intros g; simpl.
  - by intros [= ->].
  - destruct (eval g e) as [v| |] eqn:Hv; simpl; try discriminate.
    rewrite (eval_weaken g (g ∪ g0) e v (map_union_subseteq_l _ _) Hv). simpl.
    intros Hrun. rewrite insert_union_l. by apply IH.
Qed.

Lemma info_globals_ok : info_globals = Ok info_bindings.
Proof. vm_compute. reflexivity. Qed.

(** From any initial globals the module runs to completion, and its own
    bindings are those of the run from the empty dictionary. *)
Lemma exec_info (g0 : gmap string value) :
  exec info g0 = Ok (info_bindings ∪ g0).
Proof.
  rewrite <- (left_id_L ∅ (∪) g0) at 1.
  apply exec_frame, info_globals_ok.
Qed.

Lemma defines_intro (x : string) (v : value) :
  info_bindings !! x = Some v -> defines x v.
Proof.
  intros Hx g0. exists (info_bindings ∪ g0). split; [apply exec_info|].
  by apply lookup_union_Some_l.
Qed.

Lemma defines_inj (x : string) (v w : value) :
  defines x v -> defines x w -> v = w.
Proof.
  intros Hv Hw.
  destruct (Hv ∅) as (g & Hg & Hgx), (Hw ∅) as (g' & Hg' & Hgx').
  congruence.
Qed.

Ltac by_run := apply defines_intro; vm_compute; reflexivity.

(** ** Characters of a rendered integer *)

Lemma all_chars_impl (p q : ascii -> bool) (s : string) :
  (∀ c, p c = true -> q c = true) ->
  all_chars p s = true -> all_chars q s = true.
Proof.
  intros Hpq. induction s as [|c s IH]; simpl; [done|].
  rewrite !andb_true_iff. intros [Hc Hs]. auto.
Qed.

Lemma all_chars_app (p : ascii -> bool) (s t : string) :
  all_chars p (s +:+ t) = all_chars p s && all_chars p t.
Proof.
  induction s as [|c s IH]; simpl; [done|]. by rewrite IH, andb_assoc.
Qed.

Lemma uint_digits (d : Decimal.uint) :
  all_chars is_digit (NilEmpty.string_of_uint d) = true.
Proof. induction d; simpl; auto. Qed.

Lemma pos_digits (p : positive) :
  NilZero.string_of_uint (Pos.to_uint p) = NilEmpty.string_of_uint (Pos.to_uint p)
  ∧ is_digits (NilEmpty.string_of_uint (Pos.to_uint p)) = true.
Proof.
  pose proof (DecimalPos.Unsigned.to_uint_nonnil p) as Hnil.
  pose proof (uint_digits (Pos.to_uint p)) as Hd.
  destruct (Pos.to_uint p); [done|..]; split; done.
Qed.

(** A non-negative integer renders as a non-empty run of digits. *)
Lemma str_of_int_digits (z : Z) : 0 <= z -> is_digits (str_of_int z) = true.
Proof.
  destruct z as [|p|p]; intros Hz; [done| |lia].
  unfold str_of_int. simpl. destruct (pos_digits p) as [-> Hd]. exact Hd.
Qed.

Lemma is_digits_all (s : string) : is_digits s = true -> all_chars is_digit s = true.
Proof. by destruct s. Qed.

(** Every character of a rendered integer is a digit or the minus sign. *)
Lemma str_of_int_chars (z : Z) :
  all_chars (fun c => is_digit c || Ascii.eqb c "-") (str_of_int z) = true.
Proof.
  destruct z as [|p|p]; [done|..]; unfold str_of_int; simpl;
    destruct (pos_digits p) as [-> Hd]; apply is_digits_all in Hd.
  - revert Hd. apply all_chars_impl. by intros c ->.
  - simpl. revert Hd. apply all_chars_impl. by intros c ->.
Qed.

Lemma digit_or_minus_not (x : ascii) (c : ascii) :
  is_digit x = false -> x ≠ "-"%char ->
  is_digit c || Ascii.eqb c "-" = true -> negb (Ascii.eqb c x) = true.
Proof.
  intros Hx Hm Hc. destruct (Ascii.eqb_spec c x) as [->|]; [|done].
  rewrite Hx in Hc. simpl in Hc. apply Ascii.eqb_eq in Hc. done.
Qed.

Lemma str_of_int_no_dot (z : Z) :
  all_chars (fun c => negb (Ascii.eqb c ".")) (str_of_int z) = true.
Proof.
  generalize (str_of_int_chars z). apply all_chars_impl.
  intros c. by apply digit_or_minus_not.
Qed.

Lemma str_of_int_no_space (z : Z) :
  all_chars (fun c => negb (is_space c)) (str_of_int z) = true.
Proof.
  generalize (str_of_int_chars z). apply all_chars_impl.
  intros c Hc. destruct (is_space c) eqn:Hs; [|done].
  destruct (is_digit c) eqn:Hd.
  - unfold is_space, is_digit in *.
    apply andb_true_iff in Hd as [Hlo%Nat.leb_le Hhi%Nat.leb_le].
    apply orb_true_iff in Hs as [Hs%Nat.eqb_eq|Hs]; [lia|].
    apply andb_true_iff in Hs as [_ Hs%Nat.leb_le]. lia.
  - simpl in Hc. apply Ascii.eqb_eq in Hc. by subst c.
Qed.

(** ** Splitting, joining and stripping *)

Lemma split_on_plain (sep : ascii) (s : string) :
  all_chars (fun c => negb (Ascii.eqb c sep)) s = true -> split_on sep s = [s].
Proof.
  induction s as [|c s IH]; simpl; [done|].
  rewrite andb_true_iff, negb_true_iff. intros [-> Hs]. by rewrite (IH Hs).
Qed.

Lemma split_on_app (sep : ascii) (x y : string) :
  all_chars (fun c => negb (Ascii.eqb c sep)) x = true ->
  split_on sep (x +:+ String sep y) = x :: split_on sep y.
Proof.
  induction x as [|c x IH]; simpl.
  - by rewrite Ascii.eqb_refl.
  - rewrite andb_true_iff, negb_true_iff. intros [-> Hx]. by rewrite (IH Hx).
Qed.

Lemma split_on_cons (sep : ascii) (s : string) :
  ∃ part parts, split_on sep s = part :: parts.
Proof.
  induction s as [|c s (part & parts & IH)]; simpl; [by eauto|].
  destruct (Ascii.eqb c sep); [by eauto|]. rewrite IH. by eauto.
Qed.

(** Joining the parts with the separator gives the string back. *)
Lemma join_split_on (sep : ascii) (s : string) :
  join (String sep "") (split_on sep s) = s.
Proof.
  induction s as [|c s IH]; simpl; [done|].
  destruct (split_on_cons sep s) as (part & parts & Hs). rewrite Hs in *.
  destruct (Ascii.eqb_spec c sep) as [->|_].
  - simpl. simpl in IH. by rewrite IH.
  - simpl in *. destruct parts; simpl in *; by rewrite <- IH.
Qed.

Lemma lstrip_plain (s : string) :
  all_chars (fun c => negb (is_space c)) s = true -> lstrip s = s.
Proof.
  destruct s as [|c s]; simpl; [done|].
  rewrite andb_true_iff, negb_true_iff. by intros [-> _].
Qed.

Lemma rstrip_plain (s : string) :
  all_chars (fun c => negb (is_space c)) s = true -> rstrip s = s.
Proof.
  induction s as [|c s IH]; simpl; [done|].
  rewrite andb_true_iff, negb_true_iff. intros [Hc Hs].
  rewrite (IH Hs), Hc. by destruct s.
Qed.

Lemma strip_plain (s : string) :
  all_chars (fun c => negb (is_space c)) s = true -> strip s = s.
Proof.
  intros Hs. unfold strip. rewrite (lstrip_plain s Hs). by apply rstrip_plain.
Qed.

(** ** Parsing a rendered integer *)

Lemma Z_of_digits_pos (p : positive) :
  Z_of_digits (NilEmpty.string_of_uint (Pos.to_uint p)) = Z.pos p.
Proof.
  unfold Z_of_digits. rewrite NilEmpty.usu. unfold Z.of_uint.
  by rewrite DecimalPos.Unsigned.of_to.
Qed.

Lemma digit_not_sign (c : ascii) :
  is_digit c = true -> Ascii.eqb c "-" = false ∧ Ascii.eqb c "+" = false.
Proof.
  intros Hc. split; apply Ascii.eqb_neq; intros ->; discriminate.
Qed.

(** [int(str(n)) == n] for every integer. *)
Lemma int_of_str_of_int (z : Z) : int_of_str (str_of_int z) = Ok z.
Proof.
  unfold int_of_str. rewrite (strip_plain _ (str_of_int_no_space z)).
  destruct z as [|p|p]; [done|..]; unfold str_of_int; simpl;
    destruct (pos_digits p) as [-> Hd].
  - pose proof (Z_of_digits_pos p) as Hval.
    destruct (NilEmpty.string_of_uint (Pos.to_uint p)) as [|c t]; [done|].
    simpl in Hd. pose proof Hd as Hd'.
    apply andb_true_iff in Hd' as [Hc _].
    destruct (digit_not_sign c Hc) as [-> ->].
    change (is_digits (String c t)) with (all_chars is_digit (String c t)).
    simpl. by rewrite Hd, Hval.
  - by rewrite Hd, Z_of_digits_pos.
Qed.

(** ** The composition of the version string *)

Lemma string_app_nil_r (s : string) : s +:+ "" = s.
Proof.
  induction s as [|c s IH]; [done|].
  change (String c s +:+ "") with (String c (s +:+ "")). by rewrite IH.
Qed.

Lemma format_version (a b c : Z) :
  str_format "{0}.{1}.{2}" [VInt a; VInt b; VInt c]
  = Ok (str_of_int a +:+ "." +:+ str_of_int b +:+ "." +:+ str_of_int c).
Proof.
  change (str_format "{0}.{1}.{2}" [VInt a; VInt b; VInt c])
    with (Ok (str_of_int a +:+ "." +:+ str_of_int b +:+ "." +:+ (str_of_int c +:+ ""))).
  by rewrite (string_app_nil_r (str_of_int c)).
Qed.

Lemma split_version (x y z : string) :
  all_chars (fun c => negb (Ascii.eqb c ".")) x = true ->
  all_chars (fun c => negb (Ascii.eqb c ".")) y = true ->
  all_chars (fun c => negb (Ascii.eqb c ".")) z = true ->
  split_on "." (x +:+ "." +:+ y +:+ "." +:+ z) = [x; y; z].
Proof.
  intros Hx Hy Hz.
  change (x +:+ "." +:+ y +:+ "." +:+ z)
    with (x +:+ String "." (y +:+ String "." z)).
  rewrite (split_on_app "." x _ Hx), (split_on_app "." y _ Hy).
  by rewrite (split_on_plain "." z Hz).
Qed.

Lemma digits_no_dot (s : string) :
  is_digits s = true -> all_chars (fun c => negb (Ascii.eqb c ".")) s = true.
Proof.
  intros Hs%is_digits_all. revert Hs. apply all_chars_impl.
  intros c Hc. apply negb_true_iff, Ascii.eqb_neq. intros ->. discriminate.
Qed.

(** The executable matcher and the pattern agree. *)
Lemma is_XYZ_form (s : string) : is_XYZ s = true ↔ XYZ_form s.
Proof.
  split.
  - unfold is_XYZ. intros Hs. pose proof (join_split_on "." s) as Hj.
    destruct (split_on "." s) as [|x [|y [|z [|? ?]]]]; try discriminate.
    apply andb_true_iff in Hs as [[Hx Hy]%andb_true_iff Hz].
    exists x, y, z. by rewrite <- Hj.
  - intros (x & y & z & Hx & Hy & Hz & ->). unfold is_XYZ.
    rewrite split_version by (by apply digits_no_dot).
    by rewrite Hx, Hy, Hz.
Qed.

(** Whatever non-negative components are formatted, the result has the form
    [X.Y.Z]. *)
Lemma format_version_XYZ (a b c : Z) :
  0 <= a -> 0 <= b -> 0 <= c ->
  ∃ s, str_format "{0}.{1}.{2}" [VInt a; VInt b; VInt c] = Ok s ∧ XYZ_form s.
Proof.
  intros Ha Hb Hc. eexists. split; [apply format_version|].
  exists (str_of_int a), (str_of_int b), (str_of_int c).
  by rewrite !str_of_int_digits.
Qed.

(** Splitting a formatted version on dots and reading the parts as integers
    gives the components back. *)
Lemma format_version_roundtrip (a b c : Z) :
  ∃ s, str_format "{0}.{1}.{2}" [VInt a; VInt b; VInt c] = Ok s ∧
       map int_of_str (split_on "." s) = [Ok a; Ok b; Ok c].
Proof.
  eexists. split; [apply format_version|].
  rewrite split_version by apply str_of_int_no_dot.
  simpl. by rewrite !int_of_str_of_int.
Qed.

(** ** Running the module *)

Lemma exec_app (p1 p2 : list stmt) (g : gmap string value) :
  exec (p1 ++ p2) g = do gm <- exec p1 g; exec p2 gm.
Proof.
  revert g. induction p1 as [|st p1 IH]; intros g; simpl; [done|].
  destruct (exec_stmt g st); simpl; [apply IH|done..].
Qed.

(** When a program runs to completion, so does each of its prefixes: every
    statement succeeded in the globals it was run in. *)
Lemma exec_prefix (prog : list stmt) (g g' : gmap string value) (n : nat) :
  exec prog g = Ok g' -> ∃ gm, exec (take n prog) g = Ok gm.
Proof.
  rewrite <- (take_drop n prog) at 1. rewrite exec_app.
  destruct (exec (take n prog) g) as [gm| |]; [by eauto|done..].
Qed.

Lemma exec_info_prefix (n : nat) (g0 : gmap string value) :
  ∃ gm, exec (take n info) g0 = Ok gm.
Proof. apply (exec_prefix info g0 _ n (exec_info g0)). Qed.

Lemma assigned_bound :
  Forall (fun x => is_Some (info_bindings !! x)) (assigned info).
Proof.
  apply Forall_forall. intros x Hx.
  assert (forallb (fun x => bool_decide (is_Some (info_bindings !! x)))
            (assigned info) = true) as Hall by (vm_compute; reflexivity).
  rewrite forallb_forall in Hall.
  apply list_elem_of_In, Hall, bool_decide_eq_true in Hx. exact Hx.
Qed.

(** ** The claims *)

(** C1: the composed version string [__version__] has the form [X.Y.Z],
    three non-empty runs of decimal digits separated by dots. *)
Theorem version_string_is_XYZ :
  ∃ s, defines "__version__" (VStr s) ∧ XYZ_form s ∧ is_XYZ s = true.
Proof.
  exists "1.1.0". split; [by_run|]. split; [|reflexivity].
  by exists "1", "1", "0".
Qed.

(** C2: the path constants of the module, which are
    [DEFAULT_FREESURFER_PATH], [DEFAULT_FSL_PATH], [DEFAULT_WORKBENCH_PATH]
    and [DEFAULT_TEMPLATE_SYM_PATH], are all bound to non-empty strings. *)
Theorem path_constants_nonempty :
  path_constants
  = ["DEFAULT_FREESURFER_PATH"; "DEFAULT_FSL_PATH"; "DEFAULT_WORKBENCH_PATH";
     "DEFAULT_TEMPLATE_SYM_PATH"]
  ∧ Forall (fun x => ∃ s, defines x (VStr s) ∧ s ≠ "") path_constants.
Proof.
  assert (path_constants
          = ["DEFAULT_FREESURFER_PATH"; "DEFAULT_FSL_PATH"; "DEFAULT_WORKBENCH_PATH";
             "DEFAULT_TEMPLATE_SYM_PATH"]) as -> by (vm_compute; reflexivity).
  split; [done|].
  repeat (apply Forall_cons_2; [eexists; split; [by_run|discriminate]|]).
  apply Forall_nil_2.
Qed.

(** C3: the declared list of dependencies [REQUIRES] is non-empty. *)
Theorem requires_nonempty :
  ∃ items, defines "REQUIRES" (VList items) ∧ items ≠ [] ∧ length items = 3%nat.
Proof. eexists. split; [by_run|]. split; [discriminate|reflexivity]. Qed.

(** C4, as stated, fails: [EXTRA_REQUIRES] is bound to a dict, which is
    neither a number, nor a string, nor a list of those. *)
Lemma extra_requires_not_flat :
  "EXTRA_REQUIRES" ∈ assigned info
  ∧ defines "EXTRA_REQUIRES" (VDict [])
  ∧ is_flat (VDict []) = false
  ∧ ¬ Forall (fun x => ∃ v, defines x v ∧ is_flat v = true) (assigned info).
Proof.
  assert (defines "EXTRA_REQUIRES" (VDict [])) as Hdict by by_run.
  assert ("EXTRA_REQUIRES" ∈ assigned info) as Hin.
  { apply list_elem_of_In. vm_compute. tauto. }
  repeat split; [done..|].
  intros Hall. rewrite Forall_forall in Hall.
  destruct (Hall _ Hin) as (v & Hv & Hflat).
  by rewrite (defines_inj _ _ _ Hv Hdict) in Hflat.
Qed.

(** C4, amended: every constant the module binds is a number (the boolean
    [ISRELEASE] included), a string, or a list of those, except
    [EXTRA_REQUIRES], which is the empty dict. *)
Theorem constants_flat_except_extra_requires :
  Forall (fun x => ∃ v, defines x v ∧ has_shape x v) (assigned info).
Proof.
  unfold assigned, info. simpl.
  repeat (apply Forall_cons_2; [eexists; split; [by_run|reflexivity]|]).
  apply Forall_nil_2.
Qed.

(** C5: every element of [REQUIRES] is a non-empty string made of a library
    name, a comparison operator and a version of dot-separated integers. *)
Theorem requires_are_version_constraints :
  ∃ items,
    defines "REQUIRES" (VList items) ∧
    Forall (fun v => ∃ s name op ver,
              v = VStr s ∧ s ≠ "" ∧
              parse_requirement s = Some (name, op, ver) ∧
              name ≠ "" ∧ ver ≠ [] ∧
              s = name +:+ op_text op +:+ render_version ver) items.
Proof.
  eexists. split; [by_run|].
  repeat (apply Forall_cons_2;
          [eexists; eexists; eexists; eexists;
           split; [reflexivity|];
           split; [discriminate|];
           split; [vm_compute; reflexivity|];
           split; [discriminate|];
           split; [discriminate|reflexivity]|]).
  apply Forall_nil_2.
Qed.

(** C6: [FREESURFER_RELEASE] is a non-empty version string of dot-separated
    integers, the release 5.3.0. *)
Theorem freesurfer_release_is_version :
  ∃ s ver,
    defines "FREESURFER_RELEASE" (VStr s) ∧ s ≠ "" ∧
    parse_version s = Some ver ∧ ver = [5; 3; 0] ∧ s = render_version ver.
Proof.
  exists "5.3.0", [5; 3; 0]. split; [by_run|].
  split; [discriminate|]. split; [vm_compute; reflexivity|]. done.
Qed.

(** C7: evaluating the module raises no error.  From any initial globals the
    whole module, and so every prefix of it, runs to completion; in
    particular the format call of the fourth statement, which composes
    [__version__] from the three components just assigned, returns a
    string. *)
Theorem module_evaluation_total :
  (∀ g0 : gmap string value, ∃ g, exec info g0 = Ok g)
  ∧ (∀ (g0 : gmap string value) (n : nat), ∃ gm, exec (take n info) g0 = Ok gm)
  ∧ (∀ g0 : gmap string value,
       ∃ call g3 s,
         info !! 3%nat = Some (Assign "__version__" call) ∧
         call = EFormat (EStr "{0}.{1}.{2}")
                  [EName "version_major"; EName "version_minor";
                   EName "version_micro"] ∧
         exec (take 3 info) g0 = Ok g3 ∧
         eval g3 call = Ok (VStr s)).
Proof.
  split; [|split].
  - intros g0. eexists. apply exec_info.
  - intros g0 n. apply exec_info_prefix.
  - intros g0. eexists. eexists. eexists.
    split; [reflexivity|]. split; [reflexivity|]. split.
    + rewrite <- (left_id_L ∅ (∪) g0) at 1.
      apply exec_frame. vm_compute. reflexivity.
    + eapply eval_weaken; [apply map_union_subseteq_l|].
      vm_compute. reflexivity.
Qed.

(** C8: module evaluation is deterministic.  Two evaluations, started from
    any two global environments, both complete and give every constant the
    module defines the same value. *)
Theorem module_evaluation_deterministic :
  ∀ g1 g2 : gmap string value,
    ∃ r1 r2,
      exec info g1 = Ok r1 ∧ exec info g2 = Ok r2 ∧
      Forall (fun x => is_Some (r1 !! x) ∧ r1 !! x = r2 !! x) (assigned info).
Proof.
  intros g1 g2. exists (info_bindings ∪ g1), (info_bindings ∪ g2).
  split; [apply exec_info|]. split; [apply exec_info|].
  eapply Forall_impl; [apply assigned_bound|].
  intros x [v Hv]; simpl.
  by rewrite !(lookup_union_Some_l _ _ _ _ Hv).
Qed.

(** C9: each alias equals its source.  [VERSION] is [__version__],
    [DESCRIPTION] is [description], [LONG_DESCRIPTION] is [long_description],
    and the final [CLASSIFIERS] is the list of seven strings that the first
    assignment to [CLASSIFIERS] bound. *)
Theorem aliases_equal_sources :
  (∃ v, defines "VERSION" v ∧ defines "__version__" v)
  ∧ (∃ v, defines "DESCRIPTION" v ∧ defines "description" v)
  ∧ (∃ v, defines "LONG_DESCRIPTION" v ∧ defines "long_description" v)
  ∧ (∃ items,
       length items = 7%nat ∧
       Forall (fun v => ∃ s, v = VStr s) items ∧
       info !! 9%nat = Some (Assign "CLASSIFIERS" classifiers_display) ∧
       (∀ g0 : gmap string value,
          eval g0 classifiers_display = Ok (VList items) ∧
          ∃ gm, exec (take 10 info) g0 = Ok gm ∧
                gm !! "CLASSIFIERS" = Some (VList items)) ∧
       defines "CLASSIFIERS" (VList items)).
Proof.
  split; [eexists; split; by_run|].
  split; [eexists; split; by_run|].
  split; [eexists; split; by_run|].
  eexists. split; [|split; [|split; [reflexivity|split; [|by_run]]]].
  - reflexivity.
  - repeat (apply Forall_cons_2; [by eexists|]). apply Forall_nil_2.
  - intros g0. split; [reflexivity|].
    eexists. split.
    + rewrite <- (left_id_L ∅ (∪) g0) at 1.
      apply exec_frame. vm_compute. reflexivity.
    + apply lookup_union_Some_l. vm_compute. reflexivity.
Qed.

(** C10: round trip of the version composition.  [__version__] is the
    decimal renderings of [version_major], [version_minor] and
    [version_micro] joined by dots, and splitting it on the dot and reading
    each part as an integer gives (1, 1, 0) back. *)
Theorem version_round_trip :
  ∃ a b c s,
    defines "version_major" (VInt a) ∧
    defines "version_minor" (VInt b) ∧
    defines "version_micro" (VInt c) ∧
    defines "__version__" (VStr s) ∧
    s = join "." (map str_of_int [a; b; c]) ∧
    map int_of_str (split_on "." s) = [Ok a; Ok b; Ok c] ∧
    (a, b, c) = (1, 1, 0).
Proof.
  exists 1, 1, 0. destruct (format_version_roundtrip 1 1 0) as (s & Hs & Hparse).
  exists s. rewrite format_version in Hs. injection Hs as <-.
  repeat split; try by_run; try done.
Qed.

(** * Further properties of the module and of its version composition *)

(** ** What a run writes *)

(** A statement binds its target and nothing else. *)
Lemma exec_stmt_writes (g g' : gmap string value) (st : stmt) :
  exec_stmt g st = Ok g' -> ∃ v, g' = <[target st := v]> g.
Proof.
  destruct st as [x e]; simpl.
  destruct (eval g e) as [v| |]; simpl; [|done..].
  intros [= <-]. by exists v.
Qed.

Lemma exec_other (prog : list stmt) (g g' : gmap string value) (x : string) :
  exec prog g = Ok g' -> x ∉ assigned prog -> g' !! x = g !! x.
Proof.
  revert g. induction prog as [|st prog IH]; intros g; simpl.
  - by intros [= ->].
  - destruct (exec_stmt g st) as [g1| |] eqn:Hst; simpl; [|done..].
    intros Hrun [Hne Hnot]%not_elem_of_cons.
    rewrite (IH g1 Hrun Hnot).
    destruct (exec_stmt_writes _ _ _ Hst) as [v ->].
    by apply lookup_insert_ne.
Qed.

Lemma exec_dom (prog : list stmt) (g g' : gmap string value) :
  exec prog g = Ok g' -> dom g' = dom g ∪ list_to_set (assigned prog).
Proof.
  revert g. induction prog as [|st prog IH]; intros g; simpl.
  - intros [= ->]. symmetry. apply (right_id_L ∅ (∪)).
  - destruct (exec_stmt g st) as [g1| |] eqn:Hst; simpl; [|done..].
    intros Hrun. rewrite (IH g1 Hrun).
    destruct (exec_stmt_writes _ _ _ Hst) as [v ->].
    rewrite dom_insert_L.
    by rewrite (comm_L (∪) {[target st]} (dom g)), <- (assoc_L (∪)).
Qed.

(** X1: a global that the module does not assign, the interpreter's
    built-in namespace key aside, keeps after the run the value it had before
    (and stays unbound if it was unbound). *)
Theorem foreign_globals_untouched (g0 : gmap string value) (x : string) :
  x ∉ assigned info -> x ≠ builtins_key ->
  ∃ g, exec info g0 = Ok g ∧ g !! x = g0 !! x.
Proof.
  intros Hx _. exists (info_bindings ∪ g0). split; [apply exec_info|].
  by apply (exec_other info g0 _ x (exec_info g0)).
Qed.

Lemma foreign_globals_untouched_witness :
  ("__name__" ∉ assigned info)
  ∧ "__name__" ≠ builtins_key
  ∧ ∃ g, exec info supplied_globals = Ok g
         ∧ g !! "__name__" = supplied_globals !! "__name__".
Proof.
  assert ("__name__" ∉ assigned info) as Hx.
  { intros Hin%list_elem_of_In. vm_compute in Hin. intuition discriminate. }
  assert ("__name__" ≠ builtins_key) as Hb by discriminate.
  split; [exact Hx|]. split; [exact Hb|].
  exact (foreign_globals_untouched supplied_globals "__name__" Hx Hb).
Defined.

(** X2: when the globals already bind the built-in namespace key, the names
    bound after a run are those bound before it together with the names the
    module assigns; the run removes no name and adds no other. *)
Theorem globals_after_run (g0 : gmap string value) :
  is_Some (g0 !! builtins_key) ->
  ∃ g, exec info g0 = Ok g ∧ dom g = dom g0 ∪ list_to_set (assigned info).
Proof.
  intros _. eexists. split; [apply exec_info|].
  apply (exec_dom info g0 _ (exec_info g0)).
Qed.

Lemma globals_after_run_witness :
  is_Some (supplied_globals !! builtins_key)
  ∧ ∃ g, exec info supplied_globals = Ok g
         ∧ dom g = dom supplied_globals ∪ list_to_set (assigned info).
Proof.
  assert (is_Some (supplied_globals !! builtins_key)) as Hb.
  { exists (VDict []). vm_compute. reflexivity. }
  split; [exact Hb|].
  exact (globals_after_run supplied_globals Hb).
Defined.

(** ** Constants are never rebound to another value *)

Lemma exec_binds (prog : list stmt) (g g' : gmap string value) (x : string) :
  exec prog g = Ok g' -> x ∈ assigned prog -> is_Some (g' !! x).
Proof.
  intros Hrun Hx. apply (elem_of_dom (D:=gset string)).
  rewrite (exec_dom prog g g' Hrun), elem_of_union, elem_of_list_to_set. by right.
Qed.

Lemma prefix_run (n : nat) : exec (take n info) ∅ = Ok (prefix_bindings n).
Proof.
  destruct (exec_prefix info ∅ _ n info_globals_ok) as [gm Hgm].
  unfold prefix_bindings. by rewrite Hgm.
Qed.

(** The names bound by a prefix of the module have, after that prefix, the
    values they have at the end; checked by running all the prefixes. *)
Lemma prefix_agrees (n : nat) :
  map (fun x => prefix_bindings n !! x) (assigned (take n info))
  = map (fun x => info_bindings !! x) (assigned (take n info)).
Proof.
  do 31 (destruct n as [|n]; [vm_compute; reflexivity|]).
  vm_compute. reflexivity.
Qed.

(** X3: once a statement of the module has bound a name, no later statement
    changes its value: after any prefix of the module, the names bound so far
    already have their final values. *)
Theorem constants_keep_first_value (g0 : gmap string value) (n : nat) :
  ∃ gm g,
    exec (take n info) g0 = Ok gm ∧ exec info g0 = Ok g ∧
    Forall (fun x => is_Some (gm !! x) ∧ gm !! x = g !! x) (assigned (take n info)).
Proof.
  exists (prefix_bindings n ∪ g0), (info_bindings ∪ g0).
  split; [|split; [apply exec_info|]].
  - rewrite <- (left_id_L ∅ (∪) g0) at 1. apply exec_frame, prefix_run.
  - apply Forall_forall. intros x Hx.
    destruct (exec_binds _ _ _ x (prefix_run n) Hx) as [v Hv].
    pose proof (proj1 List.map_ext_in_iff (prefix_agrees n) x) as Hsame.
    simpl in Hsame. rewrite Hv in Hsame.
    rewrite (lookup_union_Some_l _ g0 _ _ Hv).
    rewrite (lookup_union_Some_l info_bindings g0 x v); [done|].
    symmetry. apply Hsame. by apply list_elem_of_In.
Qed.

(** X4: running the module again in the globals it produced, as a reload
    does, succeeds and leaves those globals unchanged. *)
Theorem reload_changes_nothing (g0 : gmap string value) :
  ∃ g, exec info g0 = Ok g ∧ exec info g = Ok g.
Proof.
  exists (info_bindings ∪ g0). split; [apply exec_info|].
  rewrite exec_info. by rewrite (assoc_L (∪)), (idemp_L (∪)).
Qed.

(** ** The format call of [__version__], on other arguments *)

Ltac scalar_cases v H :=
  destruct v as [?|[]|?|?|?]; try discriminate H.

(** X5: the format string of [__version__] needs three arguments.  Called
    with fewer, each of them an integer within the conversion limit, a
    boolean or a string, it raises [IndexError]. *)
Theorem format_needs_three_arguments (args : list value) :
  (length args < 3)%nat ->
  Forall (fun v => renders v = true) args ->
  str_format "{0}.{1}.{2}" args = Raise IndexError.
Proof.
  intros Hlen Hall.
  destruct args as [|v0 [|v1 [|v2 args]]]; simpl in Hlen; [..|lia].
  - reflexivity.
  - apply Forall_cons in Hall as [H0 _].
    scalar_cases v0 H0; reflexivity.
  - apply Forall_cons in Hall as [H0 Hall].
    apply Forall_cons in Hall as [H1 _].
    scalar_cases v0 H0; scalar_cases v1 H1; reflexivity.
Qed.

Lemma format_needs_three_arguments_witness :
  (length [VInt 1; VInt 1] < 3)%nat
  ∧ Forall (fun v => renders v = true) [VInt 1; VInt 1]
  ∧ str_format "{0}.{1}.{2}" [VInt 1; VInt 1] = Raise IndexError.
Proof.
  assert (length [VInt 1; VInt 1] < 3)%nat as Hlen by (simpl; lia).
  assert (Forall (fun v => renders v = true) [VInt 1; VInt 1]) as Hall.
  { apply Forall_cons_2; [vm_compute; reflexivity|].
    apply Forall_cons_2; [vm_compute; reflexivity|]. apply Forall_nil_2. }
  split; [exact Hlen|]. split; [exact Hall|].
  exact (format_needs_three_arguments [VInt 1; VInt 1] Hlen Hall).
Defined.

(** X6: arguments beyond the third are ignored by the format string of
    [__version__], whatever they are. *)
Theorem format_ignores_surplus_arguments (a b c : Z) (rest : list value) :
  str_format "{0}.{1}.{2}" (VInt a :: VInt b :: VInt c :: rest)
  = str_format "{0}.{1}.{2}" [VInt a; VInt b; VInt c].
Proof. reflexivity. Qed.

Lemma is_digits_str_of_int (z : Z) : is_digits (str_of_int z) = true ↔ 0 <= z.
Proof.
  split; [|apply str_of_int_digits].
  destruct z as [|p|p]; [lia..|]. discriminate.
Qed.

(** X7: for three integer components within the conversion limit the format
    call returns a string, and that string has the form [X.Y.Z] exactly when
    none of the components is negative. *)
Theorem version_form_iff_nonnegative (a b c : Z) :
  within_str_limit a -> within_str_limit b -> within_str_limit c ->
  ∃ s, str_format "{0}.{1}.{2}" [VInt a; VInt b; VInt c] = Ok s ∧
       (is_XYZ s = true ↔ 0 <= a ∧ 0 <= b ∧ 0 <= c).
Proof.
  intros _ _ _. eexists. split; [apply format_version|].
  unfold is_XYZ. rewrite split_version by apply str_of_int_no_dot.
  rewrite !andb_true_iff, !is_digits_str_of_int. tauto.
Qed.

Lemma version_form_iff_nonnegative_witness :
  within_str_limit 1 ∧ within_str_limit (-1) ∧ within_str_limit 0
  ∧ ∃ s, str_format "{0}.{1}.{2}" [VInt 1; VInt (-1); VInt 0] = Ok s ∧
         (is_XYZ s = true ↔ 0 <= 1 ∧ 0 <= -1 ∧ 0 <= 0).
Proof.
  assert (within_str_limit 1) as H1 by (vm_compute; reflexivity).
  assert (within_str_limit (-1)) as H2 by (vm_compute; reflexivity).
  assert (within_str_limit 0) as H3 by (vm_compute; reflexivity).
  split; [exact H1|]. split; [exact H2|]. split; [exact H3|].
  exact (version_form_iff_nonnegative 1 (-1) 0 H1 H2 H3).
Defined.

(** X8: for integer components within the conversion limit, negative ones
    included, splitting the composed string on the dot and reading each part
    with [int] gives the three components back. *)
Theorem version_round_trip_all_integers (a b c : Z) :
  within_str_limit a -> within_str_limit b -> within_str_limit c ->
  ∃ s, str_format "{0}.{1}.{2}" [VInt a; VInt b; VInt c] = Ok s ∧
       map int_of_str (split_on "." s) = [Ok a; Ok b; Ok c].
Proof. intros _ _ _. apply format_version_roundtrip. Qed.

Lemma version_round_trip_all_integers_witness :
  within_str_limit (-1) ∧ within_str_limit 0 ∧ within_str_limit 42
  ∧ ∃ s, str_format "{0}.{1}.{2}" [VInt (-1); VInt 0; VInt 42] = Ok s ∧
         map int_of_str (split_on "." s) = [Ok (-1); Ok 0; Ok 42].
Proof.
  assert (within_str_limit (-1)) as H1 by (vm_compute; reflexivity).
  assert (within_str_limit 0) as H2 by (vm_compute; reflexivity).
  assert (within_str_limit 42) as H3 by (vm_compute; reflexivity).
  split; [exact H1|]. split; [exact H2|]. split; [exact H3|].
  exact (version_round_trip_all_integers (-1) 0 42 H1 H2 H3).
Defined.

(** X9: the composed string determines the components: two triples of
    integers that give the same string are the same triple. *)
Theorem version_string_determines_components (a b c a' b' c' : Z) :
  str_format "{0}.{1}.{2}" [VInt a; VInt b; VInt c]
  = str_format "{0}.{1}.{2}" [VInt a'; VInt b'; VInt c'] ->
  (a, b, c) = (a', b', c').
Proof.
  destruct (format_version_roundtrip a b c) as (s & -> & Hs).
  destruct (format_version_roundtrip a' b' c') as (s' & -> & Hs').
  intros [= <-]. rewrite Hs in Hs'. by injection Hs' as -> -> ->.
Qed.

Lemma version_string_determines_components_witness :
  str_format "{0}.{1}.{2}" [VInt 1; VInt 1; VInt 0]
  = str_format "{0}.{1}.{2}" [VInt 1; VInt 1; VInt 0]
  ∧ (1, 1, 0) = (1, 1, 0).
Proof.
  split; [reflexivity|].
  exact (version_string_determines_components 1 1 0 1 1 0 eq_refl).
Defined.

(** ** The self-assignment of [CLASSIFIERS] *)

(** Rebinding a name to its own value changes nothing when the name is bound,
    and raises [NameError] when it is not. *)
Lemma self_assignment (g : gmap string value) (x : string) :
  exec_stmt g (Assign x (EName x))
  = match g !! x with
    | Some _ => Ok g
    | None => Raise (NameError x)
    end.
Proof.
  simpl. destruct (g !! x) as [v|] eqn:Hx; simpl; [|done].
  by rewrite (insert_id g x v Hx).
Qed.

(** A self-assignment of a name that the statements before it have bound can
    be dropped from a program. *)
Lemma exec_drop_self_assignment (p1 p2 : list stmt) (x : string)
    (g0 : gmap string value) :
  x ∈ assigned p1 ->
  exec (p1 ++ p2) g0 = exec (p1 ++ Assign x (EName x) :: p2) g0.
Proof.
  intros Hin. rewrite !exec_app.
  destruct (exec p1 g0) as [gm| |] eqn:Hgm; [|reflexivity..].
  change (exec p2 gm = do g' <- exec_stmt gm (Assign x (EName x)); exec p2 g').
  rewrite self_assignment.
  by destruct (exec_binds _ _ _ _ Hgm Hin) as [v ->].
Qed.

(** X10: the statement [CLASSIFIERS = CLASSIFIERS] has no effect: the module
    without it gives, from any initial globals, the same result as the
    module. *)
Theorem classifiers_self_assignment_redundant (g0 : gmap string value) :
  info !! 21%nat = Some (Assign "CLASSIFIERS" (EName "CLASSIFIERS"))
  ∧ exec (take 21 info ++ drop 22 info) g0 = exec info g0.
Proof.
  split; [reflexivity|].
  change (exec info g0)
    with (exec (take 21 info
                ++ Assign "CLASSIFIERS" (EName "CLASSIFIERS") :: drop 22 info) g0).
  apply exec_drop_self_assignment.
  apply list_elem_of_In. vm_compute. tauto.
Qed.
